(** * Scope resolution of [LoadExternalScheduling]

    A shallow embedding of [src/xdist/scheduler/loadexternal.py]: the
    construction of the scheduler ([__init__]), which fills the scope table
    from a two-column file, and [_split_scope], which maps a node id to the
    scope it is scheduled under.

    Python strings are modelled by [string] (a sequence of bytes: the
    only characters the code inspects, '[' and ':', are ASCII, and in
    UTF-8 their bytes occur nowhere else), the dict [self.scopes] by a
    [gmap string string], exceptions and [return] by an outcome type, and
    the reads and writes of [self] by a small state monad that also records
    which keys of the scope table a computation asked for. *)

From Stdlib Require Import Ascii.
From stdpp Require Import gmap strings list fin_maps.

(** ** The [str] methods the scheduler calls *)

Module PyStr.

(** [s.index(sub)]: position of the first occurrence, [None] standing
    for the [ValueError] Python raises when there is none. *)
Definition index (s sub : string) : option nat := String.index 0 sub s.

(** [s[:n]] *)
Definition slice_to (s : string) (n : nat) : string := String.substring 0 n s.

(** [len(s)] *)
Definition len (s : string) : nat := String.length s.

(** [s.split(sep)] for a non-empty separator (CPython scans from the
    left and separators do not overlap).  [cur] collects the segment being
    read and [skip] counts the characters of a separator just recognised
    that are still to be passed over. *)
Fixpoint split_from (sep : string) (skip : nat) (cur s : string) : list string :=
  match s with
  | EmptyString => [cur]
  | String c s' =>
      match skip with
      | S k => split_from sep k cur s'
      | O =>
          if String.prefix sep s
          then cur :: split_from sep (String.length sep - 1) "" s'
          else split_from sep 0 (cur +:+ String c "") s'
      end
  end.

Definition split (s sep : string) : list string := split_from sep 0 "" s.

(** [sep.join(parts)] *)
Definition join (sep : string) (parts : list string) : string :=
  String.concat sep parts.

(** [sub in s], as a proposition. *)
Definition contains (s sub : string) : Prop :=
  ∃ before after, s = before +:+ sub +:+ after.

End PyStr.

(** [xs[:-1]] on a list *)
Definition all_but_last {A} (xs : list A) : list A := removelast xs.

(** ** State, exceptions and early return *)

Inductive exn : Type :=
  | RuntimeError (msg : string)
  | ValueError
  | OSError.

Definition is_ValueError (e : exn) : bool :=
  match e with ValueError => true | _ => false end.

(** The attributes of [self] the class itself reads or writes: the scope
    table and the messages handed to [self.log], oldest first.  (The
    attributes set by the base class [LoadScopeScheduling] are not touched
    by this file.) *)
Record Self : Type := mkSelf {
  scopes : gmap string string;
  log : list string
}.

(** How a block of statements ends: it falls through with a value, it
    executes [return r], or it raises. *)
Inductive flow (R A : Type) : Type :=
  | Normal (a : A)
  | Return (r : R)
  | Raise (e : exn).
Arguments Normal {R A} a.
Arguments Return {R A} r.
Arguments Raise {R A} e.

(** A block run on [self] gives its outcome, the new [self], and the keys
    it asked the scope table for, in order. *)
Definition M (R A : Type) : Type := Self → flow R A * Self * list string.

Section Monad.
Context {R : Type}.

Definition pure {A} (a : A) : M R A := λ σ, (Normal a, σ, []).

Definition bind {A B} (m : M R A) (k : A → M R B) : M R B := λ σ,
  match m σ with
  | (Normal a, σ1, ks1) =>
      let '(o, σ2, ks2) := k a σ1 in (o, σ2, ks1 ++ ks2)
  | (Return r, σ1, ks1) => (Return r, σ1, ks1)
  | (Raise e, σ1, ks1) => (Raise e, σ1, ks1)
  end.

Definition return_ {A} (r : R) : M R A := λ σ, (Return r, σ, []).
Definition raise {A} (e : exn) : M R A := λ σ, (Raise e, σ, []).

(** [self.scopes.get(key)] *)
Definition scopes_get (key : string) : M R (option string) := λ σ,
  (Normal (scopes σ !! key), σ, [key]).

(** [self.scopes[key] = value] *)
Definition scopes_set (key value : string) : M R unit := λ σ,
  (Normal tt, mkSelf (<[key := value]> (scopes σ)) (log σ), []).

(** [self.log(msg)] *)
Definition self_log (msg : string) : M R unit := λ σ,
  (Normal tt, mkSelf (scopes σ) (log σ ++ [msg]), []).

(** [with contextlib.suppress(...)]: the block's exception, when it is
    one of the suppressed kind, ends the block; [otherwise] is the value
    of the variables the block would have rebound. *)
Definition suppress {A} (kind : exn → bool) (body : M R A) (otherwise : A)
  : M R A := λ σ,
  match body σ with
  | (Raise e, σ1, ks1) =>
      if kind e then (Normal otherwise, σ1, ks1) else (Raise e, σ1, ks1)
  | r => r
  end.

(** [for x in xs: body] *)
Fixpoint for_each {A} (xs : list A) (body : A → M R unit) : M R unit :=
  match xs with
  | [] => pure tt
  | x :: xs' => bind (body x) (λ _, for_each xs' body)
  end.

(** [nodeid.index(sub)], raising [ValueError] *)
Definition str_index (s sub : string) : M R nat :=
  match PyStr.index s sub with
  | Some i => pure i
  | None => raise ValueError
  end.
End Monad.

#[global] Instance M_ret {R} : MRet (M R) := λ A, pure.
#[global] Instance M_bind {R} : MBind (M R) := λ A B k m, bind m k.

(** A call of a method whose body is [body]: the value returned (or the
    one the body ends with), or the exception that escapes. *)
Definition call {R} (body : M R R) (σ : Self) : (exn + R) * Self * list string :=
  match body σ with
  | (Normal r, σ', ks) => (inr r, σ', ks)
  | (Return r, σ', ks) => (inr r, σ', ks)
  | (Raise e, σ', ks) => (inl e, σ', ks)
  end.

(** ** [_split_scope] *)

(** [if scope: return scope] for [scope] the result of a [dict.get]:
    [None] and the empty string are both false. *)
Definition return_if (scope : option string) : M string unit :=
  match scope with
  | Some s => if bool_decide (s = "") then mret tt else return_ s
  | None => mret tt
  end.

Definition _split_scope (nodeid : string) : M string string :=
  (* look up by the raw nodeid *)
  scope ← scopes_get nodeid;
  return_if scope;;
  (* strip out any parametrization matrix; only [index] can raise, and it
     does so before [nodeid] is rebound *)
  nodeid ← suppress is_ValueError
    (parametrized_start_idx ← str_index nodeid "[";
     let nodeid := PyStr.slice_to nodeid parametrized_start_idx in
     scope ← scopes_get nodeid;
     return_if scope;;
     mret nodeid)
    nodeid;
  (* look at the class or file *)
  let nodeid := PyStr.join "::" (all_but_last (PyStr.split nodeid "::")) in
  scope ← scopes_get nodeid;
  return_if scope;;
  (* look at the file *)
  let nodeid := PyStr.join "::" (all_but_last (PyStr.split nodeid "::")) in
  (if bool_decide (0 < PyStr.len nodeid)
   then scope ← scopes_get nodeid; return_if scope
   else mret tt);;
  (* give up and return the nodeid *)
  return_ nodeid.

(** ** [__init__] *)

(** [config.getvalue(name)]: the value of a command-line option, [None]
    when it was not given. *)
Record Config : Type := mkConfig {
  getvalue : string → option string
}.

(** What [csv.reader(open(path))] yields: the rows of the file at [path],
    each a list of columns, or [None] when the file cannot be opened. *)
Definition FileSystem : Type := string → option (list (list string)).

(** [not v] for an option value *)
Definition falsy (v : option string) : bool :=
  match v with
  | Some s => bool_decide (s = "")
  | None => true
  end.

(** [open(path)] followed by [csv.reader] *)
Definition open_reader {R} (fs : FileSystem) (path : string)
  : M R (list (list string)) :=
  match fs path with
  | Some rows => mret rows
  | None => raise OSError
  end.

(** [self.scopes = {}] *)
Definition scopes_clear {R} : M R unit := λ σ, (Normal tt, mkSelf ∅ (log σ), []).

Definition ignored_row_message : string :=
  "row in durations file doesn't have exactly 2 columns, ignoring".

(** The [continue] that ends the first branch of the loop body is the
    [else] of the conditional; the unpacking [nodeid, scope = row] raises
    [ValueError] on a row of another length. *)
Definition __init__ (fs : FileSystem) (config : Config) : M unit unit :=
  scopes_clear;;
  let scope_filename := getvalue config "scopes" in
  (if falsy scope_filename
   then raise (RuntimeError "no scopes file specified")
   else mret tt);;
  scope_file_reader ← open_reader fs (default "" scope_filename);
  for_each scope_file_reader (λ row,
    if bool_decide (length row ≠ 2)
    then self_log ignored_row_message
    else
      match row with
      | [nodeid; scope] => scopes_set nodeid scope
      | _ => raise ValueError
      end).

(** The object before [__init__] has run. *)
Definition blank : Self := mkSelf ∅ [].

(** [LoadExternalScheduling(config)]: the instance, unless [__init__]
    raises. *)
Definition construct (fs : FileSystem) (config : Config) : exn + Self :=
  match call (__init__ fs config) blank with
  | (inr _, σ, _) => inr σ
  | (inl e, _, _) => inl e
  end.

(** ** Views of a call of [_split_scope] *)

(** The scope returned for [nodeid] under the scope table [table]. *)
Definition resolve (table : gmap string string) (nodeid : string) : exn + string :=
  (call (_split_scope nodeid) (mkSelf table [])).1.1.

(** The keys of the scope table the call asks for, in order. *)
Definition lookups (table : gmap string string) (nodeid : string) : list string :=
  (call (_split_scope nodeid) (mkSelf table [])).2.

(** ** Vocabulary of the statements *)

(** A table entry that [if scope:] accepts. *)
Definition hit (table : gmap string string) (key : string) : option string :=
  match table !! key with
  | Some s => if bool_decide (s = "") then None else Some s
  | None => None
  end.

(** The node id cut at its first '[' (the id itself when it has none). *)
Definition unparametrized (nodeid : string) : string :=
  match PyStr.index nodeid "[" with
  | Some i => PyStr.slice_to nodeid i
  | None => nodeid
  end.

(** The node id without its last [::]-delimited segment. *)
Definition parent (nodeid : string) : string :=
  PyStr.join "::" (all_but_last (PyStr.split nodeid "::")).

(** The keys [_split_scope] goes through when none of them is a hit. *)
Definition candidates (nodeid : string) : list string :=
  let base := unparametrized nodeid in
  [nodeid]
  ++ match PyStr.index nodeid "[" with Some _ => [base] | None => [] end
  ++ [parent base]
  ++ (if bool_decide (parent (parent base) = "") then [] else [parent (parent base)]).

(** The first hit among [keys], with the keys asked up to it. *)
Fixpoint first_hit (table : gmap string string) (keys : list string)
  : option string * list string :=
  match keys with
  | [] => (None, [])
  | k :: keys' =>
      match hit table k with
      | Some s => (Some s, [k])
      | None => let '(r, asked) := first_hit table keys' in (r, k :: asked)
      end
  end.

(** The scope a call falls back to when no key is a hit. *)
Definition fallback (nodeid : string) : string :=
  parent (parent (unparametrized nodeid)).

(** The table after the loop of [__init__] has gone through [rows],
    starting from [table]: a row of two columns is stored, later rows
    overwriting earlier ones. *)
Definition fill (table : gmap string string) (rows : list (list string))
  : gmap string string :=
  foldl (λ t row, match row with [k; v] => <[k := v]> t | _ => t end) table rows.

(** The reading of steps 3 and 4 under which the segments are taken off
    the node id as given: once steps 1 and 2 have missed, the id without
    its last segment is asked for, and a hit there is the answer. *)
Definition strips_given_id (table : gmap string string) (nodeid : string) : Prop :=
  hit table nodeid = None →
  hit table (unparametrized nodeid) = None →
  parent nodeid ∈ lookups table nodeid ∧
  ∀ s, hit table (parent nodeid) = Some s → resolve table nodeid = inr s.

(** The entry a row of the scopes file stands for, when it has two
    columns. *)
Definition row_entry (row : list string) : option (string * string) :=
  match row with
  | [k; v] => Some (k, v)
  | _ => None
  end.

(** [s] starts with [t]. *)
Definition starts_with (s t : string) : Prop := ∃ rest, s = t +:+ rest.

(** * Properties *)

(** ** The call as a chain of lookups *)

Lemma return_if_run (scope : option string) (σ : Self) :
  return_if scope σ =
    match scope with
    | Some s => if bool_decide (s = "") then (Normal tt, σ, []) else (Return s, σ, [])
    | None => (Normal tt, σ, [])
    end.
Proof. destruct scope as [s|]; [|done]. simpl. by case_bool_decide. Qed.

(** One lookup step, [scope = self.scopes.get(key)] followed by
    [if scope: return scope], and then the rest of the body. *)
Lemma lookup_step_run {A} (key : string) (rest : M string A) (σ : Self) :
  (scope ← scopes_get key; return_if scope;; rest) σ =
    match hit (scopes σ) key with
    | Some s => (Return s, σ, [key])
    | None => let '(o, σ', ks) := rest σ in (o, σ', key :: ks)
    end.
Proof.
  unfold mbind, M_bind, bind, scopes_get, hit. rewrite return_if_run.
  destruct (scopes σ !! key) as [s|]; [case_bool_decide|]; try done.
  all: by destruct (rest σ) as [[o σ'] ks].
Qed.

Lemma last_lookup_step_run (key : string) (σ : Self) :
  (scope ← scopes_get key; return_if scope) σ =
    match hit (scopes σ) key with
    | Some s => (Return s, σ, [key])
    | None => (Normal tt, σ, [key])
    end.
Proof.
  unfold mbind, M_bind, bind, scopes_get, hit. rewrite return_if_run.
  by destruct (scopes σ !! key) as [s|]; [case_bool_decide|].
Qed.

(** The block under [contextlib.suppress(ValueError)]. *)
Lemma strip_block_run (nodeid : string) (σ : Self) :
  suppress is_ValueError
    (parametrized_start_idx ← str_index nodeid "[";
     let nodeid := PyStr.slice_to nodeid parametrized_start_idx in
     scope ← scopes_get nodeid;
     return_if scope;;
     mret nodeid)
    nodeid σ =
  match PyStr.index nodeid "[" with
  | None => (Normal nodeid, σ, [])
  | Some _ =>
      match hit (scopes σ) (unparametrized nodeid) with
      | Some s => (Return s, σ, [unparametrized nodeid])
      | None => (Normal (unparametrized nodeid), σ, [unparametrized nodeid])
      end
  end.
Proof.
  unfold suppress, unparametrized, str_index.
  unfold mbind at 1. unfold M_bind, bind at 1.
  destruct (PyStr.index nodeid "[") as [i|]; [|done].
  cbn [pure app]. rewrite lookup_step_run.
  by destruct (hit _ _).
Qed.

Lemma len_pos (s : string) : 0 < PyStr.len s ↔ s ≠ "".
Proof. destruct s; simpl; split; (done || lia). Qed.

(** The two steps after the parametrization block. *)
Lemma class_file_steps_run (nodeid : string) (σ : Self) :
  (let nodeid := PyStr.join "::" (all_but_last (PyStr.split nodeid "::")) in
   scope ← scopes_get nodeid;
   return_if scope;;
   let nodeid := PyStr.join "::" (all_but_last (PyStr.split nodeid "::")) in
   (if bool_decide (0 < PyStr.len nodeid)
    then scope ← scopes_get nodeid; return_if scope
    else mret tt);;
   return_ nodeid : M string string) σ =
  let '(r, asked) :=
    first_hit (scopes σ)
      (parent nodeid ::
       if bool_decide (parent (parent nodeid) = "") then []
       else [parent (parent nodeid)]) in
  (Return (default (parent (parent nodeid)) r), σ, asked).
Proof.
  cbv zeta. fold (parent nodeid). fold (parent (parent nodeid)).
  rewrite lookup_step_run. cbn [first_hit].
  destruct (hit (scopes σ) (parent nodeid)) as [s|]; [done|].
  unfold mbind at 1. unfold M_bind at 1. unfold bind at 1.
  case_bool_decide as Hlen; rewrite len_pos in Hlen.
  - rewrite bool_decide_eq_false_2 by done.
    rewrite last_lookup_step_run.
    cbn [first_hit]. by destruct (hit _ _).
  - rewrite bool_decide_eq_true_2; [done|].
    by destruct (decide (parent (parent nodeid) = "")).
Qed.

Lemma split_scope_run (σ : Self) (nodeid : string) :
  _split_scope nodeid σ =
    let '(r, asked) := first_hit (scopes σ) (candidates nodeid) in
    (Return (default (fallback nodeid) r), σ, asked).
Proof.
  unfold fallback, _split_scope. rewrite lookup_step_run.
  unfold candidates. cbn [first_hit app].
  destruct (hit (scopes σ) nodeid) as [s|]; [done|].
  unfold mbind at 1. unfold M_bind at 1. unfold bind at 1.
  rewrite strip_block_run.
  pose proof (class_file_steps_run (unparametrized nodeid) σ) as Hrest.
  cbv zeta in Hrest. unfold unparametrized in *.
  destruct (PyStr.index nodeid "[") as [i|]; cbn [first_hit app].
  - destruct (hit (scopes σ) (PyStr.slice_to nodeid i)) as [s|]; [done|].
    cbv beta iota. rewrite Hrest. clear Hrest. unfold parent.
    cbn [first_hit app]. destruct (hit _ _); [done|].
    by destruct (first_hit _ _).
  - cbv beta iota. rewrite Hrest. clear Hrest. unfold parent.
    cbn [first_hit app]. destruct (hit _ _); [done|].
    by destruct (first_hit _ _).
Qed.

(** ** Strings *)

Section Strings.
Implicit Types s t u sub : string.

Lemma str_app_cons a s t : String a s +:+ t = String a (s +:+ t).
Proof. reflexivity. Qed.

Lemma str_app_nil_r s : s +:+ "" = s.
Proof. induction s as [|a s IH]; [done|]. by rewrite str_app_cons, IH. Qed.

Lemma str_app_assoc s t u : (s +:+ t) +:+ u = s +:+ t +:+ u.
Proof. induction s as [|a s IH]; [done|]. by rewrite !str_app_cons, IH. Qed.

(** [String.prefix] recognises exactly the strings that start with [sub]. *)
Lemma prefix_true sub s :
  String.prefix sub s = true ↔ ∃ rest, s = sub +:+ rest.
Proof.
  revert s. induction sub as [|a sub IH]; intros s.
  - split; [by exists s|]. by destruct s.
  - destruct s as [|b s]; simpl.
    + split; [done|]. by intros [rest ?].
    + destruct (Ascii.ascii_dec a b) as [->|Hab].
      * rewrite IH. split; intros [rest Hrest]; exists rest.
        -- by rewrite str_app_cons, <-Hrest.
        -- rewrite str_app_cons in Hrest. by simplify_eq.
      * split; [done|]. intros [rest Hrest].
        rewrite str_app_cons in Hrest. by simplify_eq.
Qed.

(** A slice [s[:n]] is a prefix of [s]. *)
Lemma slice_to_prefix s n : ∃ rest, s = PyStr.slice_to s n +:+ rest.
Proof.
  unfold PyStr.slice_to. revert n.
  induction s as [|a s IH]; intros [|n]; simpl; try by eexists.
  destruct (IH n) as [rest Hrest]. exists rest.
  by rewrite str_app_cons, <-Hrest.
Qed.

Lemma slice_to_app s t : PyStr.slice_to (s +:+ t) (String.length s) = s.
Proof.
  unfold PyStr.slice_to. induction s as [|a s IH].
  - by destruct t.
  - rewrite str_app_cons. simpl. by rewrite IH.
Qed.

Lemma contains_cons a s sub :
  PyStr.contains s sub → PyStr.contains (String a s) sub.
Proof. intros (b & c & ->). by exists (String a b), c. Qed.

Lemma contains_app_l s t sub :
  PyStr.contains s sub → PyStr.contains (s +:+ t) sub.
Proof.
  intros (b & c & ->). exists b, (c +:+ t). by rewrite !str_app_assoc.
Qed.

Lemma contains_slice_to s n sub :
  PyStr.contains (PyStr.slice_to s n) sub → PyStr.contains s sub.
Proof.
  intros H. destruct (slice_to_prefix s n) as [rest Hrest].
  rewrite Hrest. by apply contains_app_l.
Qed.

(** [index] finds the first occurrence of a character. *)
Lemma index_first_char c s t :
  ¬ PyStr.contains s (String c "") →
  PyStr.index (s +:+ String c t) (String c "") = Some (String.length s).
Proof.
  unfold PyStr.index. induction s as [|a s IH]; intros Hs.
  - simpl. destruct (Ascii.ascii_dec c c); [|done]. by destruct t.
  - rewrite str_app_cons. simpl.
    destruct (Ascii.ascii_dec c a) as [->|Hca].
    + destruct Hs. by exists "", s.
    + rewrite IH; [done|]. intros H. by apply Hs, contains_cons.
Qed.

(** ... and reports nothing only when there is none. *)
Lemma index_None_not_contains s sub :
  sub ≠ "" → PyStr.index s sub = None → ¬ PyStr.contains s sub.
Proof.
  unfold PyStr.index. intros Hsub Hidx (b & c & ->).
  induction b as [|a b IH].
  - change ("" +:+ sub +:+ c) with (sub +:+ c) in Hidx.
    assert (String.prefix sub (sub +:+ c) = true) as Hp
      by (apply prefix_true; by eexists).
    destruct sub as [|x sub]; [done|].
    rewrite str_app_cons in Hidx, Hp. simpl in Hidx.
    simpl in Hp. by rewrite Hp in Hidx.
  - rewrite str_app_cons in Hidx. simpl in Hidx.
    destruct (String.index 0 sub (b +:+ sub +:+ c)); [|by apply IH].
    by repeat case_match.
Qed.

(** Without a separator in it, a string is its own single segment. *)
Lemma split_from_no_sep sep cur s :
  ¬ PyStr.contains s sep →
  PyStr.split_from sep 0 cur s = [cur +:+ s].
Proof.
  revert cur. induction s as [|a s IH]; intros cur Hs.
  - simpl. by rewrite str_app_nil_r.
  - cbn [PyStr.split_from].
    destruct (String.prefix sep (String a s)) eqn:Hp.
    + apply prefix_true in Hp as [rest Hrest].
      destruct Hs. by exists "", rest.
    + rewrite IH; [by rewrite str_app_assoc|].
      intros H. by apply Hs, contains_cons.
Qed.

Lemma split_no_sep s sep :
  ¬ PyStr.contains s sep → PyStr.split s sep = [s].
Proof. apply split_from_no_sep. Qed.

Lemma parent_no_sep s : ¬ PyStr.contains s "::" → parent s = "".
Proof. intros Hs. unfold parent. by rewrite split_no_sep. Qed.

Lemma unparametrized_no_bracket s :
  PyStr.index s "[" = None → unparametrized s = s.
Proof. unfold unparametrized. by intros ->. Qed.

Lemma unparametrized_first_bracket s t :
  ¬ PyStr.contains s "[" →
  PyStr.index (s +:+ "[" +:+ t) "[" = Some (String.length s) ∧
  unparametrized (s +:+ "[" +:+ t) = s.
Proof.
  intros Hs. unfold unparametrized.
  change ("[" +:+ t) with (String "["%char t).
  rewrite index_first_char by done. split; [done|]. apply slice_to_app.
Qed.

Lemma unparametrized_no_sep s :
  ¬ PyStr.contains s "::" → ¬ PyStr.contains (unparametrized s) "::".
Proof.
  intros Hs. unfold unparametrized.
  destruct (PyStr.index s "[") as [n|]; [|done].
  intros H. by apply Hs, contains_slice_to with n.
Qed.
(** A separator just recognised is passed over without being looked at. *)
Lemma split_from_skip sep cur t s :
  PyStr.split_from sep (String.length t) cur (t +:+ s) =
    PyStr.split_from sep 0 cur s.
Proof.
  induction t as [|a t IH]; [done|].
  rewrite str_app_cons. cbn [String.length PyStr.split_from]. apply IH.
Qed.

(** At an occurrence of the separator the segment being read is closed. *)
Lemma split_from_sep sep cur s :
  sep ≠ "" →
  PyStr.split_from sep 0 cur (sep +:+ s) = cur :: PyStr.split_from sep 0 "" s.
Proof.
  intros Hsep.
  assert (String.prefix sep (sep +:+ s) = true) as Hp
    by (apply prefix_true; by eexists).
  destruct sep as [|a sep]; [done|].
  rewrite str_app_cons in *. cbn [PyStr.split_from]. rewrite Hp.
  cbn [String.length]. rewrite Nat.sub_1_r. cbn [Nat.pred].
  by rewrite split_from_skip.
Qed.

Lemma split_from_not_nil sep skip cur s : PyStr.split_from sep skip cur s ≠ [].
Proof.
  revert skip cur. induction s as [|a s IH]; intros skip cur; [done|].
  cbn [PyStr.split_from]. destruct skip; [|done].
  by destruct (String.prefix sep (String a s)).
Qed.

Lemma join_cons sep x xs :
  xs ≠ [] → PyStr.join sep (x :: xs) = x +:+ sep +:+ PyStr.join sep xs.
Proof. by destruct xs. Qed.

Lemma str_length_app s t :
  String.length (s +:+ t) = String.length s + String.length t.
Proof.
  induction s as [|a s IH]; [done|].
  rewrite str_app_cons. cbn [String.length]. by rewrite IH.
Qed.

Lemma length_app_sep sep s :
  sep ≠ "" → String.length s < String.length (sep +:+ s).
Proof.
  intros Hsep. rewrite str_length_app.
  destruct sep; [done|]. cbn [String.length]. lia.
Qed.

(** Joining the segments of a string with the separator gives the string
    back, so [parent s] is [s] without its last segment and the separator
    before it. *)
Lemma join_split_from sep cur s :
  sep ≠ "" → PyStr.join sep (PyStr.split_from sep 0 cur s) = cur +:+ s.
Proof.
  intros Hsep. remember (String.length s) as n eqn:Hn.
  revert cur s Hn. induction (lt_wf n) as [n _ IH]. intros cur s ->.
  destruct s as [|a s]; [by rewrite str_app_nil_r|].
  destruct (String.prefix sep (String a s)) eqn:Hp.
  - apply prefix_true in Hp as [rest Hrest]. rewrite Hrest.
    rewrite split_from_sep by done.
    rewrite join_cons by apply split_from_not_nil.
    rewrite (IH (String.length rest)) with (s := rest); [done| |done].
    rewrite Hrest. by apply length_app_sep.
  - cbn [PyStr.split_from]. rewrite Hp.
    rewrite (IH (String.length s)) with (s := s); [|simpl; lia|done].
    by rewrite str_app_assoc.
Qed.

Lemma join_split s sep : sep ≠ "" → PyStr.join sep (PyStr.split s sep) = s.
Proof. intros Hsep. unfold PyStr.split. by rewrite join_split_from. Qed.

Example split_examples :
  PyStr.split "a.py::C::t" "::" = ["a.py"; "C"; "t"] ∧
  PyStr.split "a:::b" "::" = ["a"; ":b"] ∧
  PyStr.split "a::" "::" = ["a"; ""] ∧
  PyStr.split "" "::" = [""] ∧
  PyStr.split "::" "::" = [""; ""].
Proof. by vm_compute. Qed.

Example parent_examples :
  parent "example/test_delta.py::Delta1::test_delta0" = "example/test_delta.py::Delta1" ∧
  parent "example/test_beta.py::test_beta0" = "example/test_beta.py" ∧
  parent "example/test_beta.py" = "" ∧
  parent "" = "" ∧
  unparametrized "mod.py::test[x-[1]]" = "mod.py::test" ∧
  unparametrized "[x]" = "".
Proof. by vm_compute. Qed.
End Strings.

(** ** The chain *)

Section Chain.
Implicit Types (table : gmap string string) (keys asked : list string).

Lemma call_split_scope (σ : Self) (nodeid : string) :
  call (_split_scope nodeid) σ =
    (inr (default (fallback nodeid) (first_hit (scopes σ) (candidates nodeid)).1),
     σ, (first_hit (scopes σ) (candidates nodeid)).2).
Proof.
  unfold call. rewrite split_scope_run. by destruct (first_hit _ _).
Qed.

Lemma resolve_chain table nodeid :
  resolve table nodeid =
    inr (default (fallback nodeid) (first_hit table (candidates nodeid)).1).
Proof. unfold resolve. by rewrite call_split_scope. Qed.

Lemma lookups_chain table nodeid :
  lookups table nodeid = (first_hit table (candidates nodeid)).2.
Proof. unfold lookups. by rewrite call_split_scope. Qed.

Lemma first_hit_cons_hit table k keys s :
  hit table k = Some s → first_hit table (k :: keys) = (Some s, [k]).
Proof. simpl. by intros ->. Qed.

Lemma first_hit_cons_miss table k keys :
  hit table k = None →
  first_hit table (k :: keys) =
    ((first_hit table keys).1, k :: (first_hit table keys).2).
Proof. simpl. intros ->. by destruct (first_hit _ _). Qed.

Lemma first_hit_all_miss table keys :
  Forall (λ k, hit table k = None) keys → first_hit table keys = (None, keys).
Proof.
  induction 1 as [|k keys Hk _ IH]; [done|].
  by rewrite first_hit_cons_miss, IH.
Qed.

(** Only candidate keys are ever asked for. *)
Lemma first_hit_asked table keys k :
  k ∈ (first_hit table keys).2 → k ∈ keys.
Proof.
  induction keys as [|k' keys IH]; [done|]. simpl.
  destruct (hit table k') as [s|].
  - simpl. intros ->%list_elem_of_singleton. by left.
  - destruct (first_hit table keys) as [r asked]. simpl in *.
    intros [->|Hin]%elem_of_cons; [by left|]. right. by apply IH.
Qed.

(** The chain sees the table only through [hit]. *)
Lemma first_hit_ext table1 table2 keys :
  (∀ k, hit table1 k = hit table2 k) →
  first_hit table1 keys = first_hit table2 keys.
Proof.
  intros Hext. induction keys as [|k keys IH]; [done|].
  simpl. by rewrite Hext, IH.
Qed.

Lemma hit_Some table k s : hit table k = Some s ↔ table !! k = Some s ∧ s ≠ "".
Proof.
  unfold hit. destruct (table !! k) as [s'|]; [case_bool_decide|].
  - subst. split; [done|]. by intros [[= <-] ?].
  - split; [by intros [= <-]|]. by intros [[= <-] _].
  - split; [done|]. by intros [? _].
Qed.

Lemma hit_delete_empty table k k' :
  table !! k = Some "" → hit (delete k table) k' = hit table k'.
Proof.
  intros Hk. unfold hit. destruct (decide (k = k')) as [<-|Hne].
  - by rewrite lookup_delete_eq, Hk.
  - by rewrite lookup_delete_ne.
Qed.
(** When no candidate is a hit, all of them are asked for and the call
    falls back. *)
Lemma lookups_all_miss table nodeid :
  Forall (λ k, hit table k = None) (candidates nodeid) →
  lookups table nodeid = candidates nodeid ∧
  resolve table nodeid = inr (fallback nodeid).
Proof.
  intros Hmiss. by rewrite lookups_chain, resolve_chain, first_hit_all_miss.
Qed.
End Chain.

(** ** The loop of [__init__] *)

Section Construction.
Implicit Types (rows : list (list string)) (table : gmap string string).

Lemma for_each_rows_run rows (σ : Self) :
  for_each (R := unit) rows (λ row,
    if bool_decide (length row ≠ 2)
    then self_log ignored_row_message
    else
      match row with
      | [nodeid; scope] => scopes_set nodeid scope
      | _ => raise ValueError
      end) σ =
  (Normal tt,
   mkSelf (fill (scopes σ) rows)
     (log σ ++ replicate (length (filter (λ row, length row ≠ 2) rows))
                 ignored_row_message),
   []).
Proof.
  revert σ. induction rows as [|row rows IH]; intros [table msgs].
  - simpl. by rewrite app_nil_r.
  - cbn [for_each]. unfold bind at 1.
    case_bool_decide as Hlen.
    + rewrite filter_cons_True by done.
      unfold self_log at 1. rewrite IH. cbn [scopes log length replicate app].
      rewrite <-(assoc_L (++)).
      assert (fill table (row :: rows) = fill table rows) as ->; [|done].
      by destruct row as [|? [|? [|? ?]]]; simpl in *.
    + rewrite filter_cons_False by (by intros []).
      destruct row as [|k [|v [|? ?]]]; simpl in Hlen; try done.
      unfold scopes_set at 1. by rewrite IH.
Qed.
End Construction.

Section Fill.
Implicit Types (rows : list (list string)) (table : gmap string string).

Lemma fill_app table rows1 rows2 :
  fill table (rows1 ++ rows2) = fill (fill table rows1) rows2.
Proof. apply foldl_app. Qed.

(** Rows that do not carry the key [k] leave its entry alone. *)
Lemma fill_lookup_other table rows k :
  (∀ v, [k; v] ∉ rows) → fill table rows !! k = table !! k.
Proof.
  revert table. induction rows as [|row rows IH]; intros table Hk; [done|].
  cbn [fill foldl]. fold (fill (match row with [k'; v'] => <[k':=v']> table | _ => table end) rows).
  rewrite IH by (intros v Hv; apply (Hk v); by right).
  destruct row as [|k' [|v' [|? ?]]]; try done.
  apply lookup_insert_ne. intros ->. apply (Hk v'). by left.
Qed.

Lemma fill_last_wins table before after k v :
  (∀ v', [k; v'] ∉ after) →
  fill table (before ++ [k; v] :: after) !! k = Some v.
Proof.
  intros Hafter. rewrite fill_app. cbn [fill foldl].
  fold (fill (<[k:=v]> (fill table before)) after).
  rewrite fill_lookup_other by done. apply lookup_insert_eq.
Qed.

(** Every entry of the table was put there by a row of two columns. *)
Lemma fill_origin table rows k v :
  fill table rows !! k = Some v → table !! k = Some v ∨ [k; v] ∈ rows.
Proof.
  revert table. induction rows as [|row rows IH]; intros table; [by left|].
  cbn [fill foldl]. fold (fill (match row with [k'; v'] => <[k':=v']> table | _ => table end) rows).
  intros [Hin|Hin]%IH; [|right; by right].
  destruct row as [|k' [|v' [|? ?]]]; try by left.
  destruct (decide (k' = k)) as [->|Hne].
  - rewrite lookup_insert_eq in Hin. simplify_eq. right. by left.
  - rewrite lookup_insert_ne in Hin by done. by left.
Qed.

(** Dropping the rows that do not have two columns changes nothing. *)
Lemma fill_filter table rows :
  fill table (filter (λ row, length row = 2) rows) = fill table rows.
Proof.
  revert table. induction rows as [|row rows IH]; intros table; [done|].
  destruct (decide (length row = 2)) as [Hlen|Hlen].
  - rewrite filter_cons_True by done. cbn [fill foldl]. apply IH.
  - rewrite filter_cons_False by done. cbn [fill foldl]. rewrite <-IH.
    by destruct row as [|? [|? [|? ?]]].
Qed.

Lemma filter_filter_columns rows :
  filter (λ row, length row ≠ 2) (filter (λ row : list string, length row = 2) rows) = [].
Proof.
  induction rows as [|row rows IH]; [done|].
  destruct (decide (length row = 2)) as [Hlen|Hlen].
  - rewrite (filter_cons_True (λ row, length row = 2)) by done.
    rewrite filter_cons_False; [done|]. by intros [].
  - by rewrite (filter_cons_False (λ row, length row = 2)) by done.
Qed.

Lemma construct_configured (fs : FileSystem) (config : Config) path rows :
  getvalue config "scopes" = Some path → path ≠ "" → fs path = Some rows →
  construct fs config =
    inr (mkSelf (fill ∅ rows)
           (replicate (length (filter (λ row, length row ≠ 2) rows))
              ignored_row_message)).
Proof.
  intros Hcfg Hpath Hfs. unfold construct, call, __init__.
  unfold mbind at 1. unfold M_bind at 1. unfold bind at 1.
  unfold scopes_clear at 1. cbv zeta. rewrite Hcfg.
  unfold mbind at 1. unfold M_bind at 1. unfold bind at 1.
  unfold falsy. rewrite bool_decide_eq_false_2 by done.
  unfold mret at 1. unfold M_ret at 1. unfold pure at 1.
  unfold mbind at 1. unfold M_bind at 1. unfold bind at 1.
  unfold open_reader. cbn [default from_option id]. rewrite Hfs.
  unfold mret at 1. unfold M_ret at 1. unfold pure at 1.
  by rewrite for_each_rows_run.
Qed.

Lemma construct_unconfigured (fs : FileSystem) (config : Config) :
  falsy (getvalue config "scopes") = true →
  construct fs config = inl (RuntimeError "no scopes file specified").
Proof.
  intros Hcfg. unfold construct, call, __init__.
  unfold mbind at 1. unfold M_bind at 1. unfold bind at 1.
  unfold scopes_clear at 1. cbv zeta. rewrite Hcfg.
  unfold mbind at 1. unfold M_bind at 1. unfold bind at 1.
  done.
Qed.
End Fill.

(** ** Scope resolution *)

Section Resolution.
Implicit Types (table : gmap string string) (nodeid : string).

(** The keys asked for before the class step: the node id, and its
    unparametrized form when it has a '['. *)
Lemma chain_after_base table nodeid :
  hit table nodeid = None →
  hit table (unparametrized nodeid) = None →
  first_hit table (candidates nodeid) =
    let base := unparametrized nodeid in
    let rest :=
      first_hit table
        (parent base ::
         if bool_decide (parent (parent base) = "") then []
         else [parent (parent base)]) in
    (rest.1,
     nodeid :: match PyStr.index nodeid "[" with
               | Some _ => [base]
               | None => []
               end ++ rest.2).
Proof.
  intros H1 H2. unfold candidates. cbv zeta. cbn [app].
  rewrite first_hit_cons_miss by done.
  destruct (PyStr.index nodeid "[") as [i|]; cbn [app]; [|done].
  by rewrite first_hit_cons_miss by done.
Qed.
End Resolution.

(** C1 (the code departs from the claim): with the scope table of the
    grouping example, the unmapped node id [c.py::t4] is given the empty
    string as its scope, not a non-empty key; the call asks for
    [c.py::t4] and [c.py] and returns what is left of the node id after
    both segments have been taken off. *)
Theorem unmapped_node_gets_empty_scope :
  let table : gmap string string :=
    {[ "a.py::t1" := "G1"; "a.py::t2" := "G1"; "b.py::t3" := "G2" ]} in
  call (_split_scope "c.py::t4") (mkSelf table []) =
    (inr "", mkSelf table [], ["c.py::t4"; "c.py"]).
Proof. cbv zeta. rewrite call_split_scope. by vm_compute. Qed.

(** C2 (the code departs from the claim): an unmapped parametrized node
    id is not its own scope.  With an empty table, [mod.py::test[x]] and
    [mod.py::test[y]] both get the scope [""], the node id cut at '[' and
    with two segments taken off, so the two siblings share one scope. *)
Theorem unmapped_siblings_share_empty_scope :
  resolve ∅ "mod.py::test[x]" = inr "" ∧
  resolve ∅ "mod.py::test[y]" = inr "" ∧
  fallback "mod.py::test[x]" = "" ∧
  resolve ∅ "pkg/mod.py::Class::test[x]" = inr "pkg/mod.py".
Proof. rewrite !resolve_chain. by vm_compute. Qed.

(** C3, as stated, fails: the segments are not taken off the node id as
    given.  For [m.py::C::t[a::b]], whose parametrization contains a
    separator, the id without its last segment is [m.py::C::t[a]; the call
    never asks for it and does not return the scope mapped to it. *)
Lemma steps_3_4_given_id_refuted :
  ¬ strips_given_id {[ "m.py::C::t[a" := "S" ]} "m.py::C::t[a::b]".
Proof.
  intros H. destruct H as [Hin _]; [by vm_compute..|].
  rewrite lookups_chain in Hin. vm_compute in Hin.
  repeat (apply elem_of_cons in Hin as [Hin|Hin]; [discriminate|]).
  by apply elem_of_nil in Hin.
Qed.

(** C3, amended: steps 3 and 4 work on the unparametrized node id (the id
    cut at its first '[', the id itself when it has none).  Once steps 1
    and 2 have missed, the call asks for that id without its last segment
    and returns a hit on it; failing that, and only when the key is not
    empty, it asks for the id without its last two segments and returns a
    hit on it. *)
Theorem steps_3_4_strip_unparametrized (table : gmap string string) (nodeid : string) :
  let base := unparametrized nodeid in
  let earlier :=
    nodeid :: match PyStr.index nodeid "[" with Some _ => [base] | None => [] end in
  hit table nodeid = None →
  hit table base = None →
  (∀ s, hit table (parent base) = Some s →
     lookups table nodeid = earlier ++ [parent base] ∧
     resolve table nodeid = inr s) ∧
  (hit table (parent base) = None → parent (parent base) ≠ "" →
     lookups table nodeid = earlier ++ [parent base; parent (parent base)] ∧
     ∀ s, hit table (parent (parent base)) = Some s →
       resolve table nodeid = inr s) ∧
  (hit table (parent base) = None → parent (parent base) = "" →
     lookups table nodeid = earlier ++ [parent base]) ∧
  (PyStr.index nodeid "[" = None → base = nodeid).
Proof.
  intros base earlier H1 H2.
  rewrite lookups_chain, resolve_chain, chain_after_base by done.
  fold base. cbv zeta. cbn [fst snd]. fold earlier.
  split_and!.
  - intros s H3. by rewrite (first_hit_cons_hit _ _ _ s).
  - intros H3 H4. rewrite first_hit_cons_miss by done.
    rewrite bool_decide_eq_false_2 by done. cbn [fst snd first_hit].
    destruct (hit table (parent (parent base))) as [s|]; [split; [done|]|done].
    by intros ? [= <-].
  - intros H3 H4. rewrite first_hit_cons_miss by done.
    by rewrite bool_decide_eq_true_2 by done.
  - apply unparametrized_no_bracket.
Qed.

Lemma steps_3_4_strip_unparametrized_witness :
  lookups {[ "m.py" := "S" ]} "m.py::C::t[a::b]" =
    ["m.py::C::t[a::b]"; "m.py::C::t"; "m.py::C"; "m.py"] ∧
  resolve {[ "m.py" := "S" ]} "m.py::C::t[a::b]" = inr "S".
Proof.
  pose proof (steps_3_4_strip_unparametrized
                {[ "m.py" := "S" ]} "m.py::C::t[a::b]") as H.
  cbv zeta in H.
  destruct H as (_ & H & _); [reflexivity..|].
  destruct H as [Hasked Hscope]; [reflexivity|discriminate|].
  split; [exact Hasked|]. apply Hscope. reflexivity.
Defined.

(** C4: a node id [p[rest], where [p] has no '[', whose exact form is
    not a hit (unmapped, in particular) is next looked up as [p], the id
    with everything from its first '[' on removed, and a scope mapped to
    [p] is the answer. *)
Theorem parametrization_fallback (table : gmap string string) (p rest : string) :
  let nodeid := p +:+ "[" +:+ rest in
  ¬ PyStr.contains p "[" →
  hit table nodeid = None →
  (∃ later, lookups table nodeid = nodeid :: p :: later) ∧
  (∀ s, hit table p = Some s →
     lookups table nodeid = [nodeid; p] ∧ resolve table nodeid = inr s).
Proof.
  intros nodeid Hp H1.
  destruct (unparametrized_first_bracket p rest Hp) as [Hidx Hbase].
  fold nodeid in Hidx, Hbase.
  rewrite lookups_chain, resolve_chain. unfold candidates.
  rewrite Hidx, Hbase. cbn [app].
  rewrite first_hit_cons_miss by done. cbn [fst snd].
  split.
  - destruct (hit table p) as [s|] eqn:H2.
    + exists []. by rewrite (first_hit_cons_hit _ _ _ s).
    + rewrite first_hit_cons_miss by done. by eexists.
  - intros s H2. by rewrite (first_hit_cons_hit _ _ _ s).
Qed.

Lemma parametrization_fallback_witness :
  resolve {[ "mod.py::test" := "S" ]} "mod.py::test[x]" = inr "S" ∧
  resolve {[ "mod.py::test" := "S" ]} "mod.py::test[y]" = inr "S".
Proof.
  split.
  - apply (parametrization_fallback {[ "mod.py::test" := "S" ]} "mod.py::test" "x]").
    + apply index_None_not_contains; [discriminate|reflexivity].
    + reflexivity.
    + reflexivity.
  - apply (parametrization_fallback {[ "mod.py::test" := "S" ]} "mod.py::test" "y]").
    + apply index_None_not_contains; [discriminate|reflexivity].
    + reflexivity.
    + reflexivity.
Defined.

(** C5: a call of [_split_scope] returns a scope (it never raises), leaves
    [self] as it was, and its result is determined by the scope table and
    the node id: a second call on the same node id returns the same scope,
    and so does a call on any object holding the same table. *)
Theorem split_scope_pure (σ : Self) (nodeid : string) :
  ∃ key asked,
    call (_split_scope nodeid) σ = (inr key, σ, asked) ∧
    (let '(_, σ1, _) := call (_split_scope nodeid) σ in
     call (_split_scope nodeid) σ1 = (inr key, σ, asked)) ∧
    ∀ msgs, call (_split_scope nodeid) (mkSelf (scopes σ) msgs) =
              (inr key, mkSelf (scopes σ) msgs, asked).
Proof.
  eexists _, _. rewrite !call_split_scope. split_and!; [done..|].
  intros msgs. by rewrite call_split_scope.
Qed.

(** ** Construction *)

(** C6: with a scopes file configured and readable, construction
    succeeds whatever the rows are.  Every entry of the scope table comes
    from a row of exactly two columns; the table is the one the file gives
    with the other rows deleted; and [self.log] has received one message
    per row that was skipped. *)
Theorem malformed_rows_skipped
    (fs : FileSystem) (config : Config) (path : string) (rows : list (list string)) :
  getvalue config "scopes" = Some path → path ≠ "" → fs path = Some rows →
  ∃ σ,
    construct fs config = inr σ ∧
    (∀ k v, scopes σ !! k = Some v → [k; v] ∈ rows) ∧
    construct (λ _, Some (filter (λ row, length row = 2) rows)) config =
      inr (mkSelf (scopes σ) []) ∧
    log σ = replicate (length (filter (λ row, length row ≠ 2) rows))
              ignored_row_message.
Proof.
  intros Hcfg Hpath Hfs. eexists. split; [by eapply construct_configured|].
  cbn [scopes log]. split_and!; [|by erewrite construct_configured,
    fill_filter, filter_filter_columns|done].
  intros k v [Hk|Hk]%fill_origin; [|done]. by rewrite lookup_empty in Hk.
Qed.

Lemma malformed_rows_skipped_witness :
  ∃ σ,
    construct (λ _, Some [["a.py::t1"; "G1"]; ["x"; "y"; "z"]; ["b.py::t3"; "G2"]])
      (mkConfig (λ _, Some "scopes.csv")) = inr σ ∧
    scopes σ !! "x" = None ∧
    scopes σ !! "b.py::t3" = Some "G2" ∧
    log σ = [ignored_row_message].
Proof.
  destruct (malformed_rows_skipped
              (λ _, Some [["a.py::t1"; "G1"]; ["x"; "y"; "z"]; ["b.py::t3"; "G2"]])
              (mkConfig (λ _, Some "scopes.csv")) "scopes.csv"
              [["a.py::t1"; "G1"]; ["x"; "y"; "z"]; ["b.py::t3"; "G2"]])
    as (σ & Hσ & _ & _ & Hlog); [reflexivity|discriminate|reflexivity|].
  exists σ. split; [exact Hσ|].
  vm_compute in Hσ. injection Hσ as <-. split_and!; reflexivity.
Defined.

(** C7: when no scopes file is configured (the option is unset or is the
    empty string), construction raises [RuntimeError] and yields no
    scheduler, whatever files exist. *)
Theorem construct_without_scopes_file (fs : FileSystem) (config : Config) :
  getvalue config "scopes" = None ∨ getvalue config "scopes" = Some "" →
  construct fs config = inl (RuntimeError "no scopes file specified") ∧
  ∀ σ, construct fs config ≠ inr σ.
Proof.
  intros Hcfg.
  assert (construct fs config = inl (RuntimeError "no scopes file specified"))
    as -> by (apply construct_unconfigured; by destruct Hcfg as [-> | ->]).
  done.
Qed.

Lemma construct_without_scopes_file_witness :
  construct (λ _, Some [["a.py::t1"; "G1"]]) (mkConfig (λ _, None)) =
    inl (RuntimeError "no scopes file specified") ∧
  construct (λ _, Some [["a.py::t1"; "G1"]]) (mkConfig (λ _, Some "")) =
    inl (RuntimeError "no scopes file specified").
Proof.
  split.
  - apply (construct_without_scopes_file _ (mkConfig (λ _, None))).
    left. reflexivity.
  - apply (construct_without_scopes_file _ (mkConfig (λ _, Some ""))).
    right. reflexivity.
Defined.

(** C8: when several rows of two columns carry the same key, the scope
    table built by construction maps the key to the scope of the last of
    them in file order. *)
Theorem duplicate_keys_last_wins
    (fs : FileSystem) (config : Config) (path : string)
    (before after : list (list string)) (k v : string) :
  getvalue config "scopes" = Some path → path ≠ "" →
  fs path = Some (before ++ [k; v] :: after) →
  (∀ v', [k; v'] ∉ after) →
  ∃ σ, construct fs config = inr σ ∧ scopes σ !! k = Some v.
Proof.
  intros Hcfg Hpath Hfs Hafter. eexists.
  split; [by eapply construct_configured|].
  cbn [scopes]. by apply fill_last_wins.
Qed.

Lemma duplicate_keys_last_wins_witness :
  ∃ σ,
    construct (λ _, Some [["t"; "A"]; ["u"; "B"]; ["t"; "C"]; ["u"; "D"; "E"]])
      (mkConfig (λ _, Some "scopes.csv")) = inr σ ∧
    scopes σ !! "t" = Some "C".
Proof.
  apply (duplicate_keys_last_wins _ _ "scopes.csv"
           [["t"; "A"]; ["u"; "B"]] [["u"; "D"; "E"]] "t" "C");
    [reflexivity|discriminate|reflexivity|].
  intros v' Hin. apply list_elem_of_singleton in Hin. discriminate.
Defined.

(** ** Entries and keys that are empty strings *)

(** C9: an entry whose scope is the empty string is never a hit, and a
    call behaves as if the entry were not in the table: for every node id
    it asks for the same keys and returns the same scope as with the entry
    deleted. *)
Theorem empty_scope_entry_ignored
    (table : gmap string string) (k nodeid : string) :
  table !! k = Some "" →
  hit table k = None ∧
  lookups table nodeid = lookups (delete k table) nodeid ∧
  resolve table nodeid = resolve (delete k table) nodeid ∧
  ∀ msgs, call (_split_scope nodeid) (mkSelf table msgs) =
    let '(r, _, asked) := call (_split_scope nodeid) (mkSelf (delete k table) msgs) in
    (r, mkSelf table msgs, asked).
Proof.
  intros Hk.
  assert (first_hit (delete k table) (candidates nodeid) =
          first_hit table (candidates nodeid)) as Hchain
    by (apply first_hit_ext; intros k'; by apply hit_delete_empty).
  split_and!.
  - unfold hit. by rewrite Hk.
  - by rewrite !lookups_chain, Hchain.
  - by rewrite !resolve_chain, Hchain.
  - intros msgs. rewrite !call_split_scope. cbn [scopes]. by rewrite Hchain.
Qed.

Lemma empty_scope_entry_ignored_witness :
  ∃ σ,
    construct (λ _, Some [["mod.py::test"; ""]; ["mod.py"; "F"]])
      (mkConfig (λ _, Some "scopes.csv")) = inr σ ∧
    scopes σ !! "mod.py::test" = Some "" ∧
    resolve (scopes σ) "mod.py::test" =
      resolve (delete "mod.py::test" (scopes σ)) "mod.py::test" ∧
    resolve (scopes σ) "mod.py::test" = inr "F".
Proof.
  eexists. split; [reflexivity|]. cbn [scopes].
  split; [reflexivity|]. split; [|reflexivity].
  apply (empty_scope_entry_ignored _ "mod.py::test" "mod.py::test").
  reflexivity.
Defined.

(** C10: the one-segment step looks its key up even when the key is the
    empty string.  A node id without [::] that steps 1 and 2 do not match
    is looked up under the key [""], and a non-empty scope mapped to [""]
    is the answer.  The two-segment step is guarded: when the node id, its
    unparametrized form and that form without its last segment are all
    non-empty, the key [""] is never asked for. *)
Theorem empty_key_lookup (table : gmap string string) (nodeid : string) :
  (¬ PyStr.contains nodeid "::" →
   hit table nodeid = None →
   hit table (unparametrized nodeid) = None →
   last (lookups table nodeid) = Some "" ∧
   ∀ s, table !! "" = Some s → s ≠ "" → resolve table nodeid = inr s) ∧
  (nodeid ≠ "" → unparametrized nodeid ≠ "" →
   parent (unparametrized nodeid) ≠ "" →
   "" ∉ lookups table nodeid).
Proof.
  split.
  - intros Hsep H1 H2.
    assert (parent (unparametrized nodeid) = "") as Hparent
      by by apply parent_no_sep, unparametrized_no_sep.
    rewrite lookups_chain, resolve_chain, chain_after_base by done.
    cbv zeta. cbn [fst snd]. rewrite Hparent.
    change (parent "") with "". rewrite bool_decide_eq_true_2 by done.
    split.
    + cbn [first_hit]. destruct (hit table ""); cbn [snd];
        by destruct (PyStr.index nodeid "[").
    + intros s Hs Hne. rewrite (first_hit_cons_hit _ _ _ s); [done|].
      by apply hit_Some.
  - intros H1 H2 H3 Hin. rewrite lookups_chain in Hin.
    apply first_hit_asked in Hin. unfold candidates in Hin. cbv zeta in Hin.
    rewrite !elem_of_app, !list_elem_of_singleton in Hin.
    destruct Hin as [?|[Hin|[?|Hin]]]; try done.
    + destruct (PyStr.index nodeid "[");
        [by apply list_elem_of_singleton in Hin|by apply elem_of_nil in Hin].
    + case_bool_decide as Hpp; [by apply elem_of_nil in Hin|].
      by apply list_elem_of_singleton in Hin.
Qed.

Lemma empty_key_lookup_witness :
  (lookups {[ "" := "S" ]} "conftest" = ["conftest"; ""] ∧
   resolve {[ "" := "S" ]} "conftest" = inr "S") ∧
  "" ∉ lookups {[ "" := "S" ]} "a.py::t".
Proof.
  pose proof (empty_key_lookup {[ "" := "S" ]} "conftest") as [H _].
  pose proof (empty_key_lookup {[ "" := "S" ]} "a.py::t") as [_ H'].
  split.
  - destruct H as [_ H]; [|reflexivity|reflexivity|].
    + apply index_None_not_contains; [discriminate|reflexivity].
    + split; [reflexivity|]. apply (H "S"); [reflexivity|discriminate].
  - apply H'; discriminate.
Defined.

(** * Further properties of the two methods *)

(** ** More on strings *)

Section MoreStrings.
Implicit Types s t u sub : string.

Lemma starts_with_refl s : starts_with s s.
Proof. exists "". by rewrite str_app_nil_r. Qed.

Lemma starts_with_nil s : starts_with s "".
Proof. by exists s. Qed.

Lemma starts_with_trans s t u :
  starts_with s t → starts_with t u → starts_with s u.
Proof.
  intros [r1 ->] [r2 ->]. exists (r2 +:+ r1). by rewrite str_app_assoc.
Qed.

Lemma starts_with_length s t : starts_with s t → String.length t ≤ String.length s.
Proof. intros [r ->]. rewrite str_length_app. lia. Qed.

Lemma starts_with_contains s t sub :
  starts_with s t → PyStr.contains t sub → PyStr.contains s sub.
Proof. intros [r ->]. apply contains_app_l. Qed.

Lemma join_snoc sep xs x :
  xs ≠ [] → PyStr.join sep (xs ++ [x]) = PyStr.join sep xs +:+ sep +:+ x.
Proof.
  induction xs as [|y xs IH]; [done|]. intros _.
  destruct xs as [|z xs]; [done|].
  change ((y :: z :: xs) ++ [x]) with (y :: ((z :: xs) ++ [x])).
  rewrite join_cons by done.
  rewrite IH by done. rewrite (join_cons sep y (z :: xs)) by done.
  by rewrite !str_app_assoc.
Qed.

(** Taking the last segment off leaves either nothing (the string was a
    single segment) or the string up to its last separator. *)
Lemma parent_cases s :
  (parent s = "" ∧ PyStr.split s "::" = [s]) ∨
  (∃ last, s = parent s +:+ "::" +:+ last).
Proof.
  unfold parent, all_but_last.
  pose proof (join_split s "::" ltac:(done)) as Hjoin.
  destruct (exists_last (split_from_not_nil "::" 0 "" s)) as (xs & x & Hxs).
  fold (PyStr.split s "::") in Hxs. rewrite Hxs in *.
  rewrite removelast_last.
  destruct xs as [|y xs].
  - left. by simplify_eq/=.
  - right. exists x. by rewrite join_snoc in Hjoin.
Qed.

Lemma parent_starts s : starts_with s (parent s).
Proof.
  destruct (parent_cases s) as [[-> _]|[x Hx]]; [apply starts_with_nil|].
  by exists ("::" +:+ x).
Qed.

Lemma unparametrized_starts s : starts_with s (unparametrized s).
Proof.
  unfold unparametrized.
  destruct (PyStr.index s "[") as [i|]; [apply slice_to_prefix|].
  apply starts_with_refl.
Qed.

(** Before the position [index] reports there is no occurrence of the
    character. *)
Lemma index_char_Some c s i :
  PyStr.index s (String c "") = Some i →
  ¬ PyStr.contains (PyStr.slice_to s i) (String c "").
Proof.
  unfold PyStr.index, PyStr.slice_to. revert i.
  induction s as [|a s IH]; intros i; [done|]. simpl.
  destruct (Ascii.ascii_dec c a) as [->|Hca].
  - destruct s; intros [= <-]; simpl; by intros ([|??] & ? & ?).
  - destruct (String.index 0 (String c "") s) as [j|]; [|done].
    intros [= <-]. simpl.
    intros ([|b before] & after & Heq).
    + change ("" +:+ String c "" +:+ after) with (String c after) in Heq.
      by simplify_eq.
    + rewrite str_app_cons in Heq. simplify_eq.
      apply (IH j); [done|]. by eexists _, _.
Qed.

Lemma unparametrized_no_bracket_left s :
  ¬ PyStr.contains (unparametrized s) "[".
Proof.
  unfold unparametrized. destruct (PyStr.index s "[") as [i|] eqn:Hi.
  - by apply index_char_Some.
  - by apply index_None_not_contains.
Qed.

(** A segment without ':' in front of a separator is split off whole. *)
Lemma split_from_colon_free cur a rest :
  ¬ PyStr.contains a ":" →
  PyStr.split_from "::" 0 cur (a +:+ "::" +:+ rest) =
    (cur +:+ a) :: PyStr.split_from "::" 0 "" rest.
Proof.
  revert cur. induction a as [|c a IH]; intros cur Ha.
  - rewrite str_app_nil_r. change ("" +:+ "::" +:+ rest) with ("::" +:+ rest).
    by apply split_from_sep.
  - rewrite str_app_cons. cbn [PyStr.split_from].
    assert (String.prefix "::" (String c (a +:+ "::" +:+ rest)) = false) as ->.
    { cbn [String.prefix]. destruct (Ascii.ascii_dec ":"%char c) as [<-|]; [|done].
      destruct Ha. by exists "", a. }
    rewrite IH by (intros H; by apply Ha, contains_cons).
    by rewrite str_app_assoc.
Qed.

Lemma contains_colon_sep s : PyStr.contains s "::" → PyStr.contains s ":".
Proof. intros (b & a & ->). by exists b, (":" +:+ a). Qed.

Lemma parent_two_segments a b :
  ¬ PyStr.contains a ":" → ¬ PyStr.contains b ":" →
  parent (a +:+ "::" +:+ b) = a.
Proof.
  intros Ha Hb. unfold parent, PyStr.split.
  rewrite split_from_colon_free by done.
  rewrite split_from_no_sep by (intros H; by apply Hb, contains_colon_sep).
  done.
Qed.

Lemma parent_three_segments a b c :
  ¬ PyStr.contains a ":" → ¬ PyStr.contains b ":" → ¬ PyStr.contains c ":" →
  parent (a +:+ "::" +:+ b +:+ "::" +:+ c) = a +:+ "::" +:+ b.
Proof.
  intros Ha Hb Hc. unfold parent, PyStr.split.
  rewrite !split_from_colon_free by done.
  rewrite split_from_no_sep by (intros H; by apply Hc, contains_colon_sep).
  done.
Qed.
End MoreStrings.

(** ** Which entries a call can see *)

Section Locality.
Implicit Types (table : gmap string string) (nodeid k : string).

Lemma first_hit_agree table1 table2 keys :
  (∀ k, k ∈ keys → table1 !! k = table2 !! k) →
  first_hit table1 keys = first_hit table2 keys.
Proof.
  induction keys as [|k keys IH]; intros Hagree; [done|].
  cbn [first_hit].
  assert (hit table1 k = hit table2 k) as ->
    by (unfold hit; by rewrite (Hagree k) by (by left)).
  rewrite IH; [done|]. intros k' Hk'. apply Hagree. by right.
Qed.

Lemma candidates_cases nodeid k :
  k ∈ candidates nodeid →
  k = nodeid ∨ k = unparametrized nodeid ∨
  k = parent (unparametrized nodeid) ∨
  (k = parent (parent (unparametrized nodeid)) ∧ k ≠ "").
Proof.
  unfold candidates. cbv zeta.
  rewrite !elem_of_app, !list_elem_of_singleton.
  intros [?|[Hk|[?|Hk]]]; auto.
  - destruct (PyStr.index nodeid "[").
    + apply list_elem_of_singleton in Hk. auto.
    + by apply elem_of_nil in Hk.
  - case_bool_decide; [by apply elem_of_nil in Hk|].
    apply list_elem_of_singleton in Hk as ->. auto.
Qed.

Lemma candidates_start nodeid k :
  k ∈ candidates nodeid → starts_with nodeid k.
Proof.
  pose proof (unparametrized_starts nodeid) as H1.
  pose proof (parent_starts (unparametrized nodeid)) as H2.
  pose proof (parent_starts (parent (unparametrized nodeid))) as H3.
  intros [->|[->|[->|[-> _]]]]%candidates_cases;
    eauto using starts_with_refl, starts_with_trans.
Qed.

Lemma candidates_bracket nodeid k :
  k ∈ candidates nodeid → k = nodeid ∨ ¬ PyStr.contains k "[".
Proof.
  pose proof (unparametrized_no_bracket_left nodeid) as Hbase.
  pose proof (parent_starts (unparametrized nodeid)) as H2.
  pose proof (parent_starts (parent (unparametrized nodeid))) as H3.
  intros [->|[->|[->|[-> _]]]]%candidates_cases; [by left|right..]; [done| |].
  - intros H. by apply Hbase, (starts_with_contains _ _ _ H2).
  - intros H. apply Hbase, (starts_with_contains _ _ _ H2).
    by apply (starts_with_contains _ _ _ H3).
Qed.

Lemma candidates_length nodeid :
  1 ≤ length (candidates nodeid) ≤ 4 ∧ head (candidates nodeid) = Some nodeid.
Proof.
  unfold candidates. cbv zeta. split; [|done].
  rewrite !length_app. destruct (PyStr.index nodeid "[");
    case_bool_decide; simpl; lia.
Qed.

(** The keys asked for are the candidates up to the first hit. *)
Lemma first_hit_shape table keys :
  match (first_hit table keys).1 with
  | Some s =>
      ∃ k rest, keys = (first_hit table keys).2 ++ rest ∧
        last (first_hit table keys).2 = Some k ∧ hit table k = Some s
  | None =>
      (first_hit table keys).2 = keys ∧ ∀ k, k ∈ keys → hit table k = None
  end.
Proof.
  induction keys as [|k keys IH]; [split; [done|by intros ? ?%elem_of_nil]|].
  cbn [first_hit].
  destruct (hit table k) as [s|] eqn:Hk.
  - cbn [fst snd]. by exists k, keys.
  - destruct (first_hit table keys) as [[s|] asked]; cbn [fst snd] in *.
    + destruct IH as (k' & rest & Hkeys & Hlast & Hhit).
      exists k', rest. split_and!; [by rewrite Hkeys at 1| |done].
      destruct asked; [done|]. by rewrite last_cons, Hlast.
    + destruct IH as [-> Hmiss]. split; [done|].
      by intros k' [->|?]%elem_of_cons; [|apply Hmiss].
Qed.
End Locality.

(** X1: a call sees the table only at prefixes of the node id.  Putting in,
    changing or deleting an entry whose key is not a prefix of the node id
    changes neither the scope returned nor the keys asked for. *)
Theorem entry_off_prefix_is_irrelevant
    (table : gmap string string) (nodeid k : string) (v : string) :
  ¬ starts_with nodeid k →
  resolve (<[k := v]> table) nodeid = resolve table nodeid ∧
  lookups (<[k := v]> table) nodeid = lookups table nodeid ∧
  resolve (delete k table) nodeid = resolve table nodeid ∧
  lookups (delete k table) nodeid = lookups table nodeid.
Proof.
  intros Hk.
  assert (∀ k', k' ∈ candidates nodeid → k ≠ k') as Hne.
  { intros k' Hk' ->. by apply Hk, candidates_start. }
  rewrite !resolve_chain, !lookups_chain.
  rewrite (first_hit_agree (<[k:=v]> table) table),
    (first_hit_agree (delete k table) table); [done|..].
  - intros k' Hk'. apply lookup_delete_ne. by apply Hne.
  - intros k' Hk'. apply lookup_insert_ne. by apply Hne.
Qed.

Lemma entry_off_prefix_is_irrelevant_witness :
  resolve (<[ "b.py" := "B" ]> {[ "a.py" := "A" ]}) "a.py::t" = inr "A".
Proof.
  destruct (entry_off_prefix_is_irrelevant {[ "a.py" := "A" ]} "a.py::t" "b.py" "B")
    as (-> & _).
  - intros [rest Hrest]. discriminate Hrest.
  - reflexivity.
Defined.

(** X2: an entry whose key contains '[' matches by exact node id only:
    for any other node id the call behaves as if the entry were absent. *)
Theorem bracket_key_matches_exactly
    (table : gmap string string) (nodeid k : string) (v : string) :
  PyStr.contains k "[" → k ≠ nodeid →
  resolve (<[k := v]> table) nodeid = resolve table nodeid ∧
  lookups (<[k := v]> table) nodeid = lookups table nodeid.
Proof.
  intros Hk Hne.
  rewrite !resolve_chain, !lookups_chain.
  rewrite (first_hit_agree (<[k:=v]> table) table); [done|].
  intros k' Hk'. apply lookup_insert_ne. intros ->.
  by destruct (candidates_bracket nodeid k' Hk').
Qed.

Lemma bracket_key_matches_exactly_witness :
  resolve (<[ "m.py::t[1]" := "P" ]> {[ "m.py" := "F" ]}) "m.py::t[1][2]" = inr "F".
Proof.
  destruct (bracket_key_matches_exactly {[ "m.py" := "F" ]}
              "m.py::t[1][2]" "m.py::t[1]" "P") as [-> _].
  - by exists "m.py::t", "1]".
  - discriminate.
  - reflexivity.
Defined.

(** X3: where the result comes from.  A call makes between one and four
    lookups, the first of them on the node id itself, every one on a prefix
    of the node id.  The scope returned is either the non-empty entry of
    the last key asked for, or, when no key asked for has a non-empty
    entry, the node id cut at '[' and without its last two segments (which
    is again a prefix of the node id). *)
Theorem scope_provenance (table : gmap string string) (nodeid : string) :
  1 ≤ length (lookups table nodeid) ≤ 4 ∧
  head (lookups table nodeid) = Some nodeid ∧
  (∀ k, k ∈ lookups table nodeid → starts_with nodeid k) ∧
  ((∃ k s, last (lookups table nodeid) = Some k ∧ table !! k = Some s ∧
           s ≠ "" ∧ resolve table nodeid = inr s)
   ∨ ((∀ k, k ∈ lookups table nodeid → hit table k = None) ∧
      starts_with nodeid (fallback nodeid) ∧
      resolve table nodeid = inr (fallback nodeid))).
Proof.
  rewrite lookups_chain, resolve_chain.
  pose proof (first_hit_shape table (candidates nodeid)) as Hshape.
  pose proof (candidates_length nodeid) as [[Hlen1 Hlen4] Hhead].
  assert (∀ k, k ∈ (first_hit table (candidates nodeid)).2 →
            starts_with nodeid k) as Hstart
    by (intros k Hk; by apply candidates_start, (first_hit_asked table)).
  destruct (first_hit table (candidates nodeid)) as [[s|] asked];
    cbn [fst snd default from_option id] in *.
  - destruct Hshape as (k & rest & Hkeys & Hlast & Hhit).
    apply hit_Some in Hhit as [Hk Hs].
    rewrite Hkeys, length_app in Hlen4. rewrite Hkeys in Hhead.
    destruct asked as [|k0 asked]; [done|]. cbn [length app head] in *.
    split_and!; [lia..|done|done|]. left. by exists k, s.
  - destruct Hshape as [-> Hmiss]. split_and!; [done..|]. right.
    split_and!; [done| |done].
    eauto using starts_with_trans, parent_starts, unparametrized_starts.
Qed.

(** ** Node ids of tests, as the docstring lists them *)

Section Shapes.
Implicit Types (table : gmap string string) (nodeid f c m t : string).

(** After a miss on the node id itself the result depends on the
    unparametrized id only. *)
Lemma first_hit_after_exact_miss table nodeid :
  hit table nodeid = None →
  (first_hit table (candidates nodeid)).1 =
    let base := unparametrized nodeid in
    (first_hit table
       (base :: parent base ::
        if bool_decide (parent (parent base) = "") then []
        else [parent (parent base)])).1.
Proof.
  intros Hmiss. unfold candidates. cbv zeta. cbn [app].
  rewrite first_hit_cons_miss by done. cbn [fst].
  unfold unparametrized.
  destruct (PyStr.index nodeid "[") as [i|]; cbn [app]; [done|].
  by rewrite (first_hit_cons_miss _ nodeid) by done.
Qed.

Lemma parent_colon_free f : ¬ PyStr.contains f ":" → parent f = "".
Proof. intros Hf. apply parent_no_sep. intros H. by apply Hf, contains_colon_sep. Qed.
End Shapes.

(** X4: node ids that differ only from their first '[' on (the
    parametrizations of one test) and are not themselves hits are always
    given the same scope. *)
Theorem parametrizations_share_scope
    (table : gmap string string) (nodeid1 nodeid2 : string) :
  unparametrized nodeid1 = unparametrized nodeid2 →
  hit table nodeid1 = None → hit table nodeid2 = None →
  resolve table nodeid1 = resolve table nodeid2.
Proof.
  intros Hbase H1 H2. rewrite !resolve_chain. unfold fallback.
  rewrite !first_hit_after_exact_miss by done. cbv zeta.
  by rewrite Hbase.
Qed.

Lemma parametrizations_share_scope_witness :
  resolve {[ "mod.py::test[x]" := ""; "mod.py" := "F" ]} "mod.py::test[x]" =
  resolve {[ "mod.py::test[x]" := ""; "mod.py" := "F" ]} "mod.py::test[y-z]".
Proof.
  apply parametrizations_share_scope; reflexivity.
Defined.

(** X5: a test method.  For a node id whose unparametrized form is
    [f::c::m], with [f], [c] and [m] free of ':' and [f] not empty, once
    the id and its unparametrized form have missed, the scope is the
    non-empty entry of the class [f::c], failing that the non-empty entry
    of the file [f], failing that the file name [f] itself. *)
Theorem method_scope_by_class_then_file
    (table : gmap string string) (nodeid f c m : string) :
  ¬ PyStr.contains f ":" → ¬ PyStr.contains c ":" → ¬ PyStr.contains m ":" →
  f ≠ "" →
  unparametrized nodeid = f +:+ "::" +:+ c +:+ "::" +:+ m →
  hit table nodeid = None →
  hit table (unparametrized nodeid) = None →
  resolve table nodeid =
    inr (match hit table (f +:+ "::" +:+ c) with
         | Some s => s
         | None => default f (hit table f)
         end) ∧
  ∃ earlier,
    lookups table nodeid =
      earlier ++ (f +:+ "::" +:+ c) ::
        match hit table (f +:+ "::" +:+ c) with Some _ => [] | None => [f] end.
Proof.
  intros Hf Hc Hm Hne Hbase H1 H2.
  rewrite resolve_chain, lookups_chain, chain_after_base by done.
  unfold fallback. cbv zeta. cbn [fst snd]. rewrite Hbase.
  rewrite parent_three_segments, parent_two_segments by done.
  rewrite bool_decide_eq_false_2 by done. cbn [first_hit].
  destruct (hit table (f +:+ "::" +:+ c)) as [s|]; cbn [fst snd default from_option id].
  - split; [done|].
    by exists (nodeid :: match PyStr.index nodeid "[" with
                         | Some _ => [f +:+ "::" +:+ c +:+ "::" +:+ m]
                         | None => []
                         end).
  - destruct (hit table f) as [s|]; cbn [fst snd default from_option id];
      (split; [done|];
       by exists (nodeid :: match PyStr.index nodeid "[" with
                            | Some _ => [f +:+ "::" +:+ c +:+ "::" +:+ m]
                            | None => []
                            end)).
Qed.

Lemma method_scope_by_class_then_file_witness :
  resolve {[ "t/test_delta.py::Delta1" := "D" ]}
    "t/test_delta.py::Delta1::test_delta0[1-2]" = inr "D" ∧
  resolve {[ "t/test_delta.py" := "F" ]}
    "t/test_delta.py::Delta1::test_delta0" = inr "F" ∧
  resolve ∅ "t/test_delta.py::Delta1::test_delta0" = inr "t/test_delta.py".
Proof.
  split_and!.
  - destruct (method_scope_by_class_then_file
                {[ "t/test_delta.py::Delta1" := "D" ]}
                "t/test_delta.py::Delta1::test_delta0[1-2]"
                "t/test_delta.py" "Delta1" "test_delta0") as [H _];
      [apply index_None_not_contains; [discriminate|reflexivity]..
      |discriminate|reflexivity|reflexivity|reflexivity|exact H].
  - destruct (method_scope_by_class_then_file
                {[ "t/test_delta.py" := "F" ]}
                "t/test_delta.py::Delta1::test_delta0"
                "t/test_delta.py" "Delta1" "test_delta0") as [H _];
      [apply index_None_not_contains; [discriminate|reflexivity]..
      |discriminate|reflexivity|reflexivity|reflexivity|exact H].
  - destruct (method_scope_by_class_then_file
                ∅ "t/test_delta.py::Delta1::test_delta0"
                "t/test_delta.py" "Delta1" "test_delta0") as [H _];
      [apply index_None_not_contains; [discriminate|reflexivity]..
      |discriminate|reflexivity|reflexivity|reflexivity|exact H].
Defined.

(** X6: a test function.  For a node id whose unparametrized form is
    [f::t], with [f] and [t] free of ':', once the id and its
    unparametrized form have missed, the file [f] is the last key asked
    for; the scope is its non-empty entry, and the empty string when it
    has none. *)
Theorem function_scope_by_file
    (table : gmap string string) (nodeid f t : string) :
  ¬ PyStr.contains f ":" → ¬ PyStr.contains t ":" →
  unparametrized nodeid = f +:+ "::" +:+ t →
  hit table nodeid = None →
  hit table (unparametrized nodeid) = None →
  last (lookups table nodeid) = Some f ∧
  resolve table nodeid = inr (default "" (hit table f)).
Proof.
  intros Hf Ht Hbase H1 H2.
  rewrite resolve_chain, lookups_chain, chain_after_base by done.
  unfold fallback. cbv zeta. cbn [fst snd]. rewrite Hbase.
  rewrite parent_two_segments, parent_colon_free by done.
  rewrite bool_decide_eq_true_2 by done. cbn [first_hit].
  destruct (hit table f) as [s|]; cbn [fst snd default from_option id];
    (split; [|done]); by destruct (PyStr.index nodeid "[").
Qed.

Lemma function_scope_by_file_witness :
  resolve {[ "t/test_beta.py" := "B" ]} "t/test_beta.py::test_beta0[7]" = inr "B" ∧
  resolve {[ "" := "E" ]} "t/test_beta.py::test_beta0" = inr "".
Proof.
  split.
  - destruct (function_scope_by_file {[ "t/test_beta.py" := "B" ]}
                "t/test_beta.py::test_beta0[7]" "t/test_beta.py" "test_beta0")
      as [_ H];
      [apply index_None_not_contains; [discriminate|reflexivity]..
      |reflexivity|reflexivity|reflexivity|exact H].
  - destruct (function_scope_by_file {[ "" := "E" ]}
                "t/test_beta.py::test_beta0" "t/test_beta.py" "test_beta0")
      as [_ H];
      [apply index_None_not_contains; [discriminate|reflexivity]..
      |reflexivity|reflexivity|reflexivity|exact H].
Defined.

(** ** More on construction *)

Section MoreConstruction.
Implicit Types (rows : list (list string)) (table : gmap string string).

(** The loop builds the map of the rows' entries, later entries first. *)
Lemma fill_list_to_map table rows :
  fill table rows = list_to_map (reverse (omap row_entry rows)) ∪ table.
Proof.
  revert table. induction rows as [|row rows IH]; intros table.
  - cbn. by rewrite (left_id_L ∅ (∪)).
  - cbn [fill foldl].
    fold (fill (match row with [k; v] => <[k:=v]> table | _ => table end) rows).
    rewrite IH. destruct row as [|k [|v [|? ?]]]; try done.
    cbn [omap list_omap row_entry]. rewrite reverse_cons, list_to_map_app.
    rewrite <-(assoc_L (∪)). f_equal. cbn.
    by rewrite insert_empty, <-insert_union_singleton_l.
Qed.

Lemma fill_union table rows : fill table rows = fill ∅ rows ∪ table.
Proof.
  rewrite (fill_list_to_map ∅), (fill_list_to_map table).
  by rewrite (right_id_L ∅ (∪)).
Qed.

(** What a successful or failed construction says about the
    configuration and the file. *)
Lemma construct_cases (fs : FileSystem) (config : Config) :
  (falsy (getvalue config "scopes") = true ∧
   construct fs config = inl (RuntimeError "no scopes file specified")) ∨
  (∃ path, getvalue config "scopes" = Some path ∧ path ≠ "" ∧
     ((fs path = None ∧ construct fs config = inl OSError) ∨
      (∃ rows, fs path = Some rows ∧
         construct fs config =
           inr (mkSelf (fill ∅ rows)
                  (replicate (length (filter (λ row, length row ≠ 2) rows))
                     ignored_row_message))))).
Proof.
  destruct (falsy (getvalue config "scopes")) eqn:Hcfg.
  { left. split; [done|]. by apply construct_unconfigured. }
  right. unfold falsy in Hcfg.
  destruct (getvalue config "scopes") as [path|] eqn:Hpath; [|done].
  apply bool_decide_eq_false in Hcfg.
  exists path. split_and!; [done..|].
  destruct (fs path) as [rows|] eqn:Hfs.
  - right. exists rows. split; [done|]. by apply (construct_configured _ _ path).
  - left. split; [done|].
    unfold construct, call, __init__.
    unfold mbind at 1. unfold M_bind at 1. unfold bind at 1.
    unfold scopes_clear at 1. cbv zeta. rewrite Hpath.
    unfold mbind at 1. unfold M_bind at 1. unfold bind at 1.
    unfold falsy. rewrite bool_decide_eq_false_2 by done.
    unfold mret at 1. unfold M_ret at 1. unfold pure at 1.
    unfold mbind at 1. unfold M_bind at 1. unfold bind at 1.
    unfold open_reader. cbn [default from_option id]. by rewrite Hfs.
Qed.
End MoreConstruction.



(** X8: a scopes file that is two files one after the other gives the
    table of the second laid over the table of the first (an entry of the
    second wins), and the diagnostics of the first followed by those of
    the second. *)
Theorem construct_concatenated
    (config : Config) (rows1 rows2 : list (list string)) (σ1 σ2 : Self) :
  construct (λ _, Some rows1) config = inr σ1 →
  construct (λ _, Some rows2) config = inr σ2 →
  construct (λ _, Some (rows1 ++ rows2)) config =
    inr (mkSelf (scopes σ2 ∪ scopes σ1) (log σ1 ++ log σ2)).
Proof.
  intros H1 H2.
  destruct (construct_cases (λ _, Some rows1) config)
    as [[_ H]|(path & Hpath & Hne & [[? _]|(? & [= <-] & H)])];
    [by rewrite H in H1|done|].
  rewrite H in H1. injection H1 as <-.
  rewrite (construct_configured _ _ path rows2) in H2 by done.
  injection H2 as <-. cbn [scopes log].
  rewrite (construct_configured _ _ path (rows1 ++ rows2)) by done.
  rewrite fill_app, (fill_union (fill ∅ rows1)).
  by rewrite filter_app, length_app, replicate_add.
Qed.

Lemma construct_concatenated_witness :
  ∃ σ,
    construct (λ _, Some ([["t"; "A"]; ["u"; "B"]] ++ [["bad"]; ["t"; "C"]]))
      (mkConfig (λ _, Some "scopes.csv")) = inr σ ∧
    scopes σ !! "t" = Some "C" ∧ scopes σ !! "u" = Some "B" ∧
    log σ = [ignored_row_message].
Proof.
  eexists. split.
  - apply (construct_concatenated _ [["t"; "A"]; ["u"; "B"]] [["bad"]; ["t"; "C"]]);
      reflexivity.
  - split_and!; reflexivity.
Defined.

(** X9: the order of the rows matters for repeated keys only.  When the
    rows of two columns carry pairwise different keys, reordering the rows
    of the file changes nothing of what construction gives. *)
Theorem construct_row_order
    (config : Config) (rows rows' : list (list string)) :
  rows ≡ₚ rows' →
  NoDup (omap row_entry rows).*1 →
  construct (λ _, Some rows) config = construct (λ _, Some rows') config.
Proof.
  intros Hperm Hkeys.
  destruct (construct_cases (λ _, Some rows) config)
    as [[Hcfg H]|(path & Hpath & Hne & [[? _]|(? & [= <-] & H)])]; [|done|].
  - rewrite H. symmetry. by apply construct_unconfigured.
  - rewrite H, (construct_configured _ _ path rows') by done.
    do 2 f_equal.
    + rewrite !fill_list_to_map. f_equal.
      apply list_to_map_proper.
      * by rewrite reverse_Permutation.
      * by rewrite !reverse_Permutation, Hperm.
    + by rewrite Hperm.
Qed.

Lemma construct_row_order_witness :
  construct (λ _, Some [["t"; "A"]; ["x"; "y"; "z"]; ["u"; "B"]])
    (mkConfig (λ _, Some "scopes.csv")) =
  construct (λ _, Some [["u"; "B"]; ["t"; "A"]; ["x"; "y"; "z"]])
    (mkConfig (λ _, Some "scopes.csv")).
Proof.
  apply construct_row_order.
  - symmetry.
    apply (Permutation_cons_append [["t"; "A"]; ["x"; "y"; "z"]] ["u"; "B"]).
  - cbn. repeat constructor; rewrite ?elem_of_cons, ?elem_of_nil;
      intros H; decompose [or] H; discriminate || done.
Defined.

(** X10: from the file to the scope.  A node id listed in the scopes
    file with a non-empty scope, in a row of two columns that no later row
    of the same key follows, is given that scope by the scheduler built
    from the file, with a single lookup. *)
Theorem listed_node_gets_listed_scope
    (fs : FileSystem) (config : Config) (path : string)
    (before after : list (list string)) (nodeid scope : string) :
  getvalue config "scopes" = Some path → path ≠ "" →
  fs path = Some (before ++ [nodeid; scope] :: after) →
  (∀ v', [nodeid; v'] ∉ after) →
  scope ≠ "" →
  ∃ σ, construct fs config = inr σ ∧
       call (_split_scope nodeid) σ = (inr scope, σ, [nodeid]).
Proof.
  intros Hcfg Hpath Hfs Hafter Hscope. eexists.
  split; [by eapply construct_configured|].
  rewrite call_split_scope. cbn [scopes].
  assert (hit (fill ∅ (before ++ [nodeid; scope] :: after)) nodeid = Some scope)
    as Hhit by (apply hit_Some; split; [by apply fill_last_wins|done]).
  unfold candidates. cbn [app].
  by rewrite (first_hit_cons_hit _ _ _ scope).
Qed.

Lemma listed_node_gets_listed_scope_witness :
  ∃ σ,
    construct (λ _, Some [["a.py::t1"; "G0"]; ["a.py"; "F"]; ["a.py::t1"; "G1"]])
      (mkConfig (λ _, Some "scopes.csv")) = inr σ ∧
    call (_split_scope "a.py::t1") σ = (inr "G1", σ, ["a.py::t1"]).
Proof.
  apply (listed_node_gets_listed_scope _ _ "scopes.csv"
           [["a.py::t1"; "G0"]; ["a.py"; "F"]] [] "a.py::t1" "G1");
    [reflexivity|discriminate|reflexivity| |discriminate].
  intros v' Hin. by apply elem_of_nil in Hin.
Defined.
